(** * Longitudinal vehicle model: the [Vehicle] class of
      Longitudinal_Vehicle_Model.py

    The class holds twelve physical parameters, the sampling time and five
    state variables; [reset] restores the state variables and [step]
    advances them by one sampling period.

    The arithmetic of the program is kept behind an interface ([Arith]):
    the structural properties of [step] (which attributes are written, in
    which order, from which values) are proved for every interpretation of
    [+ - * / ** abs < sin], so they do not rest on any algebraic law that
    rounding would break.  Properties that are algebraic are stated for the
    interpretation over the real numbers; rounding itself is not modelled. *)

From Stdlib Require Import QArith Reals Lra List.
Import ListNotations.

Set Implicit Arguments.

(** ** Arithmetic interface *)

(** The operators the program applies to its numbers.  [lit] is the value
    of a numeric literal of the source (an [int] literal such as [400] or a
    [float] literal such as [0.1]); every [int] of the program is small and
    is used together with floats, so one numeric type is enough. *)
Class Arith (F : Type) : Type := {
  lit      : Q -> F;
  fadd     : F -> F -> F;
  fsub     : F -> F -> F;
  fmul     : F -> F -> F;
  fdiv     : F -> F -> F;
  fpow     : F -> nat -> F;
  fabs     : F -> F;
  fltb     : F -> F -> bool;
  fsin     : F -> F
}.

Declare Scope arith_scope.
Delimit Scope arith_scope with ar.
Infix "+" := fadd : arith_scope.
Infix "-" := fsub : arith_scope.
Infix "*" := fmul : arith_scope.
Infix "/" := fdiv : arith_scope.
Infix "<?" := fltb (at level 70, no associativity) : arith_scope.
Notation "x ** n" := (fpow x n) (at level 30, right associativity) : arith_scope.

(** Exact arithmetic over the real numbers. *)
#[global] Instance Arith_R : Arith R := {
  lit      := Q2R;
  fadd     := Rplus;
  fsub     := Rminus;
  fmul     := Rmult;
  fdiv     := Rdiv;
  fpow     := pow;
  fabs     := Rabs;
  fltb     := fun p q => if Rlt_dec p q then true else false;
  fsin     := sin
}.

(** Exact arithmetic with the special values of binary64: the infinity of
    either sign and not-a-number, which NumPy's scalars produce (with a
    warning, without raising) where the reals have no value.  Zero is
    taken with the positive sign; a negative zero would only flip the sign
    of an infinite quotient. *)
Inductive xreal : Type :=
| Finite (r : R)
| Inf (negative : bool)
| NaN.

Definition Rnegative (r : R) : bool := if Rlt_dec r 0 then true else false.

Definition xadd (p q : xreal) : xreal :=
  match p, q with
  | NaN, _ | _, NaN => NaN
  | Finite r1, Finite r2 => Finite (r1 + r2)
  | Inf n, Finite _ | Finite _, Inf n => Inf n
  | Inf n1, Inf n2 => if Bool.eqb n1 n2 then Inf n1 else NaN
  end.

Definition xopp (p : xreal) : xreal :=
  match p with
  | Finite r => Finite (- r)
  | Inf n => Inf (negb n)
  | NaN => NaN
  end.

Definition xsub (p q : xreal) : xreal :=
  match p, q with
  | Finite r1, Finite r2 => Finite (r1 - r2)
  | _, _ => xadd p (xopp q)
  end.

Definition xmul (p q : xreal) : xreal :=
  match p, q with
  | NaN, _ | _, NaN => NaN
  | Finite r1, Finite r2 => Finite (r1 * r2)
  | Inf n, Finite r | Finite r, Inf n =>
    if Req_dec_T r 0 then NaN else Inf (xorb n (Rnegative r))
  | Inf n1, Inf n2 => Inf (xorb n1 n2)
  end.

Definition xdiv (p q : xreal) : xreal :=
  match p, q with
  | NaN, _ | _, NaN => NaN
  | Finite r1, Finite r2 =>
    if Req_dec_T r2 0
    then if Req_dec_T r1 0 then NaN else Inf (Rnegative r1)
    else Finite (r1 / r2)
  | Finite _, Inf _ => Finite 0
  | Inf n, Finite r => Inf (xorb n (Rnegative r))
  | Inf _, Inf _ => NaN
  end.

Definition xpow (p : xreal) (n : nat) : xreal :=
  match p, n with
  | _, O => Finite 1
  | Finite r, _ => Finite (r ^ n)
  | Inf neg, _ => Inf (andb neg (Nat.odd n))
  | NaN, _ => NaN
  end.

Definition xabs (p : xreal) : xreal :=
  match p with
  | Finite r => Finite (Rabs r)
  | Inf _ => Inf false
  | NaN => NaN
  end.

(** [<] is false as soon as one side is not-a-number. *)
Definition xltb (p q : xreal) : bool :=
  match p, q with
  | NaN, _ | _, NaN => false
  | Finite r1, Finite r2 => if Rlt_dec r1 r2 then true else false
  | Inf n, Finite _ => n
  | Finite _, Inf n => negb n
  | Inf n1, Inf n2 => andb n1 (negb n2)
  end.

Definition xsin (p : xreal) : xreal :=
  match p with
  | Finite r => Finite (sin r)
  | Inf _ | NaN => NaN
  end.

#[global] Instance Arith_xreal : Arith xreal := {
  lit      := fun q => Finite (Q2R q);
  fadd     := xadd;
  fsub     := xsub;
  fmul     := xmul;
  fdiv     := xdiv;
  fpow     := xpow;
  fabs     := xabs;
  fltb     := xltb;
  fsin     := xsin
}.

Definition is_finite (p : xreal) : bool :=
  match p with
  | Finite _ => true
  | _ => false
  end.

(** ** The object *)

Section Model.

Context {F : Type} {AF : Arith F}.
Local Open Scope arith_scope.

(** The attributes of a [Vehicle] instance, in the order [__init__]
    creates them. *)
Record Vehicle : Type := mkVehicle {
  a_0 : F;
  a_1 : F;
  a_2 : F;
  GR : F;
  r_e : F;
  J_e : F;
  m : F;
  g : F;
  c_a : F;
  c_r1 : F;
  c : F;
  F_max : F;
  x : F;
  v : F;
  a : F;
  w_e : F;
  w_e_dot : F;
  sample_time : F
}.

(** Attribute assignment [self.f = val] for the five attributes the methods
    assign. *)
Definition set_x (self : Vehicle) (val : F) : Vehicle :=
  mkVehicle (a_0 self) (a_1 self) (a_2 self) (GR self) (r_e self) (J_e self)
    (m self) (g self) (c_a self) (c_r1 self) (c self) (F_max self)
    val (v self) (a self) (w_e self) (w_e_dot self) (sample_time self).

Definition set_v (self : Vehicle) (val : F) : Vehicle :=
  mkVehicle (a_0 self) (a_1 self) (a_2 self) (GR self) (r_e self) (J_e self)
    (m self) (g self) (c_a self) (c_r1 self) (c self) (F_max self)
    (x self) val (a self) (w_e self) (w_e_dot self) (sample_time self).

Definition set_a (self : Vehicle) (val : F) : Vehicle :=
  mkVehicle (a_0 self) (a_1 self) (a_2 self) (GR self) (r_e self) (J_e self)
    (m self) (g self) (c_a self) (c_r1 self) (c self) (F_max self)
    (x self) (v self) val (w_e self) (w_e_dot self) (sample_time self).

Definition set_w_e (self : Vehicle) (val : F) : Vehicle :=
  mkVehicle (a_0 self) (a_1 self) (a_2 self) (GR self) (r_e self) (J_e self)
    (m self) (g self) (c_a self) (c_r1 self) (c self) (F_max self)
    (x self) (v self) (a self) val (w_e_dot self) (sample_time self).

Definition set_w_e_dot (self : Vehicle) (val : F) : Vehicle :=
  mkVehicle (a_0 self) (a_1 self) (a_2 self) (GR self) (r_e self) (J_e self)
    (m self) (g self) (c_a self) (c_r1 self) (c self) (F_max self)
    (x self) (v self) (a self) (w_e self) val (sample_time self).

(** A method mutates [self] and returns a value: a state transformer on
    the object.  [reset] and [step] return [None], here [tt]. *)
Definition Method (A : Type) : Type := Vehicle -> A * Vehicle.

Definition exec {A : Type} (meth : Method A) (self : Vehicle) : Vehicle :=
  snd (meth self).

(** [Vehicle.__init__]: the object a call [Vehicle()] builds. *)
Definition Vehicle_init : Vehicle := {|
  a_0 := lit 400;
  a_1 := lit 0.1;
  a_2 := lit (-0.0002);
  GR := lit 0.35;
  r_e := lit 0.3;
  J_e := lit 10;
  m := lit 2000;
  g := lit 9.81;
  c_a := lit 1.36;
  c_r1 := lit 0.01;
  c := lit 10000;
  F_max := lit 10000;
  x := lit 0;
  v := lit 5;
  a := lit 0;
  w_e := lit 100;
  w_e_dot := lit 0;
  sample_time := lit 0.01
|}.

(** [Vehicle.reset]. *)
Definition reset : Method unit := fun self =>
  let self := set_x self (lit 0) in
  let self := set_v self (lit 5) in
  let self := set_a self (lit 0) in
  let self := set_w_e self (lit 100) in
  let self := set_w_e_dot self (lit 0) in
  (tt, self).

(** The local variables of [step], as they stand when the method ends. *)
Record Locals : Type := mkLocals {
  T_e : F;
  F_areo : F;
  R_x : F;
  F_g : F;
  F_load : F;
  w_w : F;
  s : F;
  F_x : F
}.

(** [Vehicle.step], first block (up to the comment [#update equations]):
    torque, load forces, slip and tyre force; assigns [self.w_e_dot] and
    [self.a].  Every [self.f] reads the object as it is at that statement. *)
Definition step_forces (throttle alpha : F) : Method Locals := fun self =>
  let T_e := throttle * (a_0 self + a_1 self * w_e self + a_2 self * w_e self ** 2) in
  let F_areo := c_a self * v self ** 2 in
  let R_x := c_r1 self * v self in
  let F_g := m self * g self * fsin alpha in
  let F_load := F_areo + R_x + F_g in
  let self := set_w_e_dot self ((T_e - GR self * r_e self * F_load) / J_e self) in
  let w_w := GR self * w_e self in
  let s := (w_w * r_e self - v self) / v self in
  let F_x := if fabs s <? lit 1 then c self * s else F_max self in
  let self := set_a self ((F_x - F_load) / m self) in
  (mkLocals T_e F_areo R_x F_g F_load w_w s F_x, self).

(** [Vehicle.step], second block: the three augmented assignments. *)
Definition step_update : Method unit := fun self =>
  let self := set_w_e self (w_e self + w_e_dot self * sample_time self) in
  let self := set_v self (v self + a self * sample_time self) in
  let self := set_x self
    (x self + (v self * sample_time self - lit 0.5 * a self * sample_time self ** 2)) in
  (tt, self).

(** [Vehicle.step]. *)
Definition step (throttle alpha : F) : Method unit := fun self =>
  let (_, self) := step_forces throttle alpha self in
  step_update self.

(** *** Calls made by a driver *)

(** The scripts of the notebook only ever call [step] and [reset] on the
    object. *)
Inductive call : Type :=
| Step (throttle alpha : F)
| Reset.

Definition do_call (k : call) : Method unit :=
  match k with
  | Step throttle alpha => step throttle alpha
  | Reset => reset
  end.

Fixpoint run (ks : list call) (self : Vehicle) : Vehicle :=
  match ks with
  | [] => self
  | k :: ks' => run ks' (exec (do_call k) self)
  end.

(** A sequence of [step] calls, one per pair of inputs. *)
Definition steps (inputs : list (F * F)) : list call :=
  map (fun i => Step (fst i) (snd i)) inputs.

(** *** The equations of one step, as the specification words them *)

(** Each quantity is a function of the object as it is before the call and
    of the inputs it mentions: once the section is closed, [eq_T_e] takes
    the object and the throttle, [eq_F_g], [eq_F_load], [eq_a], [eq_v] and
    [eq_x] the object and the incline, [eq_w_e_dot] and [eq_w_e] all three,
    the others the object alone. *)
Section Equations.

Variables (self : Vehicle) (throttle incline_angle : F).

Definition eq_T_e : F :=
  throttle * (a_0 self + a_1 self * w_e self + a_2 self * w_e self ** 2).
Definition eq_F_aero : F := c_a self * v self ** 2.
Definition eq_R_x : F := c_r1 self * v self.
Definition eq_F_g : F := m self * g self * fsin incline_angle.
Definition eq_F_load : F := eq_F_aero + eq_R_x + eq_F_g.
Definition eq_w_e_dot : F := (eq_T_e - GR self * r_e self * eq_F_load) / J_e self.
Definition eq_w_w : F := GR self * w_e self.
Definition eq_s : F := (eq_w_w * r_e self - v self) / v self.
Definition eq_F_x : F :=
  if fabs eq_s <? lit 1 then c self * eq_s else F_max self.
Definition eq_a : F := (eq_F_x - eq_F_load) / m self.
Definition eq_w_e : F := w_e self + eq_w_e_dot * sample_time self.
Definition eq_v : F := v self + eq_a * sample_time self.
Definition eq_x : F :=
  x self + eq_v * sample_time self - lit 0.5 * eq_a * sample_time self ** 2.

(** The object after the call: the twelve parameters and the sampling time
    as before, the five state variables by the equations. *)
Definition step_spec : Vehicle := {|
  a_0 := a_0 self;
  a_1 := a_1 self;
  a_2 := a_2 self;
  GR := GR self;
  r_e := r_e self;
  J_e := J_e self;
  m := m self;
  g := g self;
  c_a := c_a self;
  c_r1 := c_r1 self;
  c := c self;
  F_max := F_max self;
  x := eq_x;
  v := eq_v;
  a := eq_a;
  w_e := eq_w_e;
  w_e_dot := eq_w_e_dot;
  sample_time := sample_time self
|}.

(** The locals the equations name. *)
Definition locals_spec : Locals :=
  mkLocals eq_T_e eq_F_aero eq_R_x eq_F_g eq_F_load eq_w_w eq_s eq_F_x.

End Equations.

(** Two objects hold the same parameters. *)
Definition same_params (p q : Vehicle) : Prop :=
  a_0 p = a_0 q /\ a_1 p = a_1 q /\ a_2 p = a_2 q /\ GR p = GR q /\
  r_e p = r_e q /\ J_e p = J_e q /\ m p = m q /\ g p = g q /\
  c_a p = c_a q /\ c_r1 p = c_r1 q /\ c p = c q /\ F_max p = F_max q /\
  sample_time p = sample_time q.

(** Two objects hold the same state variables. *)
Definition same_state (p q : Vehicle) : Prop :=
  x p = x q /\ v p = v q /\ a p = a q /\ w_e p = w_e q /\
  w_e_dot p = w_e_dot q.

End Model.

Arguments Vehicle F : clear implicits.
Arguments Locals F : clear implicits.
Arguments Method F A : clear implicits.
Arguments call F : clear implicits.

(** An object whose eighteen attributes are real numbers, in the arithmetic
    with special values. *)
Definition lift (self : Vehicle R) : Vehicle xreal :=
  mkVehicle (Finite (a_0 self)) (Finite (a_1 self)) (Finite (a_2 self))
    (Finite (GR self)) (Finite (r_e self)) (Finite (J_e self))
    (Finite (m self)) (Finite (g self)) (Finite (c_a self))
    (Finite (c_r1 self)) (Finite (c self)) (Finite (F_max self))
    (Finite (x self)) (Finite (v self)) (Finite (a self))
    (Finite (w_e self)) (Finite (w_e_dot self)) (Finite (sample_time self)).

(** ** The cells that drive the model *)

(** [np.arctan], which the ramp cell applies to its two slopes. *)
Class Arctan (F : Type) : Type := farctan : F -> F.

#[global] Instance Arctan_R : Arctan R := atan.

(** The global arrays and the global [model] of the ramp cell. *)
Module Ramp.
Record workspace (F : Type) : Type := mk {
  throttle : list F;
  alpha : list F;
  x_data : list F;
  v_data : list F;
  w_e_data : list F;
  model : Vehicle F
}.
End Ramp.

Section Driver.

Context {F : Type} {AF : Arith F} {AT : Arctan F}.
Local Open Scope arith_scope.

(** One-dimensional arrays with the indices a [range] produces: reading
    [arr[i]] and writing [arr[i] = val] raise [IndexError] (here [None])
    when [i] is not below the length. *)
Definition getitem (arr : list F) (i : nat) : option F := nth_error arr i.

Fixpoint setitem (arr : list F) (i : nat) (val : F) : option (list F) :=
  match arr, i with
  | [], _ => None
  | _ :: tl, O => Some (val :: tl)
  | hd :: tl, S j =>
    match setitem tl j val with
    | Some tl' => Some (hd :: tl')
    | None => None
    end
  end.

(** [np.zeros_like(t_data)]. *)
Definition zeros_like (t_data : list F) : list F := map (fun _ => lit 0) t_data.

(** [for i in range(n): body], stopped by the first exception. *)
Fixpoint for_each {W : Type} (body : nat -> W -> option W) (indices : list nat)
    (w : W) : option W :=
  match indices with
  | [] => Some w
  | i :: rest =>
    match body i w with
    | Some w' => for_each body rest w'
    | None => None
    end
  end.

Definition for_range {W : Type} (body : nat -> W -> option W) (n : nat)
    (w : W) : option W :=
  for_each body (seq 0 n) w.

(** Sequencing of statements that may raise. *)
Definition and_then {A B : Type} (e : option A) (k : A -> option B)
    : option B :=
  match e with
  | Some r => k r
  | None => None
  end.

Local Notation "r <- e ;; k" := (and_then e (fun r => k))
  (at level 61, e at next level, right associativity).
Local Notation "' pat <- e ;; k" :=
  (and_then e (fun r => match r with pat => k end))
  (at level 61, pat pattern, e at next level, right associativity).

(** [angle(i, alpha, x)]: stores the incline at position [x] in [alpha[i]];
    the result is the array after the store. *)
Definition angle (i : nat) (alpha : list F) (x : F) : option (list F) :=
  if x <? lit 60 then setitem alpha i (farctan (lit 3 / lit 60))
  else if x <? lit 150 then setitem alpha i (farctan (lit 9 / lit 90))
  else setitem alpha i (lit 0).

(** Body of the loop of the ramp cell; [t_data] is only read. *)
Definition ramp_body (t_data : list F) (i : nat) (w : Ramp.workspace F)
    : option (Ramp.workspace F) :=
  t <- getitem t_data i ;;
  ' (throttle, alpha) <-
    (if t <? lit 5 then
       throttle <- setitem (Ramp.throttle w) i
                     (lit 0.2 + ((lit 0.5 - lit 0.2) / lit 5) * t) ;;
       alpha <- angle i (Ramp.alpha w) (x (Ramp.model w)) ;;
       Some (throttle, alpha)
     else if t <? lit 15 then
       throttle <- setitem (Ramp.throttle w) i (lit 0.5) ;;
       alpha <- angle i (Ramp.alpha w) (x (Ramp.model w)) ;;
       Some (throttle, alpha)
     else
       throttle <- setitem (Ramp.throttle w) i
                     (((lit 0 - lit 0.5) / (lit 20 - lit 15)) * (t - lit 20)) ;;
       alpha <- angle i (Ramp.alpha w) (x (Ramp.model w)) ;;
       Some (throttle, alpha)) ;;
  throttle_i <- getitem throttle i ;;
  alpha_i <- getitem alpha i ;;
  let model := exec (step throttle_i alpha_i) (Ramp.model w) in
  x_data <- setitem (Ramp.x_data w) i (x model) ;;
  v_data <- setitem (Ramp.v_data w) i (v model) ;;
  w_e_data <- setitem (Ramp.w_e_data w) i (w_e model) ;;
  Some (Ramp.mk throttle alpha x_data v_data w_e_data model).

(** The ramp cell: the arrays are made, the model is reset, the loop runs
    over the indices of [t_data]. *)
Definition ramp_cell (t_data : list F) (model : Vehicle F)
    : option (Ramp.workspace F) :=
  let x_data := zeros_like t_data in
  let v_data := zeros_like t_data in
  let w_e_data := zeros_like t_data in
  let model := exec reset model in
  let throttle := zeros_like t_data in
  let alpha := zeros_like t_data in
  for_range (ramp_body t_data) (length t_data)
    (Ramp.mk throttle alpha x_data v_data w_e_data model).

(** Body of the loop of the constant-throttle cell, with the globals
    [throttle = 0.2] and [alpha = 0] of that cell. *)
Definition constant_body (i : nat) (w : list F * Vehicle F)
    : option (list F * Vehicle F) :=
  let (v_data, model) := w in
  v_data <- setitem v_data i (v model) ;;
  Some (v_data, exec (step (lit 0.2) (lit 0)) model).

(** The constant-throttle cell: a new [Vehicle()], one sample per index of
    [t_data]. *)
Definition constant_cell (t_data : list F) : option (list F * Vehicle F) :=
  for_range constant_body (length t_data) (zeros_like t_data, Vehicle_init).

(** *** The same cells as recurrences *)

(** The throttle the ramp cell stores for the time [t]. *)
Definition throttle_profile (t : F) : F :=
  if t <? lit 5 then lit 0.2 + ((lit 0.5 - lit 0.2) / lit 5) * t
  else if t <? lit 15 then lit 0.5
  else ((lit 0 - lit 0.5) / (lit 20 - lit 15)) * (t - lit 20).

(** The incline [angle] stores for the position [x]. *)
Definition angle_value (x : F) : F :=
  if x <? lit 60 then farctan (lit 3 / lit 60)
  else if x <? lit 150 then farctan (lit 9 / lit 90)
  else lit 0.

(** Throttle, incline and model after the step, for each time of the grid. *)
Fixpoint ramp_trace (ts : list F) (model : Vehicle F)
    : list (F * F * Vehicle F) :=
  match ts with
  | [] => []
  | t :: ts' =>
    let throttle := throttle_profile t in
    let alpha := angle_value (x model) in
    let model' := exec (step throttle alpha) model in
    (throttle, alpha, model') :: ramp_trace ts' model'
  end.

(** The model once the whole trace has run. *)
Fixpoint ramp_final (ts : list F) (model : Vehicle F) : Vehicle F :=
  match ts with
  | [] => model
  | t :: ts' =>
    ramp_final ts'
      (exec (step (throttle_profile t) (angle_value (x model))) model)
  end.

(** Velocities before each of [n] steps at throttle 0.2 on a flat road. *)
Fixpoint velocity_trace (n : nat) (model : Vehicle F) : list F :=
  match n with
  | O => []
  | S n' => v model :: velocity_trace n' (exec (step (lit 0.2) (lit 0)) model)
  end.

End Driver.

(** ** Properties that hold for every arithmetic *)

Section Structure.

Context {F : Type} {AF : Arith F}.
Local Open Scope arith_scope.

Implicit Types (self : Vehicle F) (throttle alpha : F).

Lemma same_params_refl self : same_params self self.
Proof. repeat split. Qed.

Lemma same_params_trans (p q r : Vehicle F) :
  same_params p q -> same_params q r -> same_params p r.
Proof.
  unfold same_params; intros Hpq Hqr.
  repeat match goal with H : _ /\ _ |- _ => destruct H end.
  repeat split; etransitivity; eassumption.
Qed.

(** An object is determined by its parameters and its state variables. *)
Lemma vehicle_ext (p q : Vehicle F) :
  same_params p q -> same_state p q -> p = q.
Proof.
  destruct p, q; unfold same_params, same_state; cbn; intros Hp Hs.
  repeat match goal with H : _ /\ _ |- _ => destruct H end.
  subst; reflexivity.
Qed.

(** The first block leaves the object with two attributes assigned, both
    from values read before any assignment. *)
Lemma step_forces_eq throttle alpha self :
  step_forces throttle alpha self =
  (locals_spec self throttle alpha,
   set_a (set_w_e_dot self (eq_w_e_dot self throttle alpha))
         (eq_a self alpha)).
Proof. reflexivity. Qed.

(** The second block, as nested assignments. *)
Lemma step_update_eq self :
  step_update self =
  (tt,
   let s1 := set_w_e self (w_e self + w_e_dot self * sample_time self) in
   let s2 := set_v s1 (v s1 + a s1 * sample_time s1) in
   set_x s2 (x s2 + (v s2 * sample_time s2
                     - lit 0.5 * a s2 * sample_time s2 ** 2))).
Proof. reflexivity. Qed.

(** The object after one call, every attribute in terms of the object before
    the call, with the grouping of the operations the source has. *)
Lemma step_eq throttle alpha self :
  step throttle alpha self =
  (tt,
   let a' := eq_a self alpha in
   let w' := eq_w_e_dot self throttle alpha in
   let dt := sample_time self in
   mkVehicle (a_0 self) (a_1 self) (a_2 self) (GR self) (r_e self) (J_e self)
     (m self) (g self) (c_a self) (c_r1 self) (c self) (F_max self)
     (x self + ((v self + a' * dt) * dt - lit 0.5 * a' * dt ** 2))
     (v self + a' * dt)
     a'
     (w_e self + w' * dt)
     w'
     dt).
Proof. reflexivity. Qed.

Lemma step_same_params throttle alpha self :
  same_params self (exec (step throttle alpha) self).
Proof. unfold exec; rewrite step_eq; repeat split. Qed.

Lemma reset_eq self :
  reset self =
  (tt,
   mkVehicle (a_0 self) (a_1 self) (a_2 self) (GR self) (r_e self) (J_e self)
     (m self) (g self) (c_a self) (c_r1 self) (c self) (F_max self)
     (lit 0) (lit 5) (lit 0) (lit 100) (lit 0) (sample_time self)).
Proof. reflexivity. Qed.

Lemma reset_same_params self : same_params self (exec reset self).
Proof. unfold exec; rewrite reset_eq; repeat split. Qed.

Lemma do_call_same_params (k : call F) self :
  same_params self (exec (do_call k) self).
Proof.
  destruct k; [apply step_same_params | apply reset_same_params].
Qed.

Lemma run_same_params (ks : list (call F)) :
  forall self, same_params self (run ks self).
Proof.
  induction ks as [|k ks IH]; intros self; cbn [run].
  - apply same_params_refl.
  - eapply same_params_trans; [apply do_call_same_params | apply IH].
Qed.

Lemma run_app (ks1 ks2 : list (call F)) :
  forall self, run (ks1 ++ ks2) self = run ks2 (run ks1 self).
Proof.
  induction ks1 as [|k ks1 IH]; intros self; cbn [run app]; auto.
Qed.

(** C4: every local of [step] and the values stored in [w_e_dot] and [a]
    are the equations evaluated on the object as it was before the call;
    when the first block is over, [x], [v], [w_e] and the parameters are
    still those of before the call; the three closing assignments run on
    that object, and what they store in [w_e], [v] and [x] is a function of
    the object before the call and of the two inputs alone. *)
Theorem step_reads_precall_state throttle alpha self :
  let loc := fst (step_forces throttle alpha self) in
  let mid := exec (step_forces throttle alpha) self in
  let post := exec (step throttle alpha) self in
  let dt := sample_time self in
  (T_e loc = eq_T_e self throttle /\ F_areo loc = eq_F_aero self /\
   R_x loc = eq_R_x self /\ F_g loc = eq_F_g self alpha /\
   F_load loc = eq_F_load self alpha /\ w_w loc = eq_w_w self /\
   s loc = eq_s self /\ F_x loc = eq_F_x self) /\
  (w_e_dot mid = eq_w_e_dot self throttle alpha /\ a mid = eq_a self alpha) /\
  (x mid = x self /\ v mid = v self /\ w_e mid = w_e self /\
   same_params self mid) /\
  step throttle alpha self = step_update mid /\
  (w_e post = w_e self + eq_w_e_dot self throttle alpha * dt /\
   v post = v self + eq_a self alpha * dt /\
   x post = x self + ((v self + eq_a self alpha * dt) * dt
                      - lit 0.5 * eq_a self alpha * dt ** 2)).
Proof.
  cbv zeta; unfold exec.
  rewrite step_eq, step_forces_eq; cbn.
  repeat split.
Qed.

(** C5: [Vehicle()] starts at x = 0, v = 5, a = 0, w_e = 100, w_e_dot = 0
    with a sampling time of 0.01; after any sequence of [step] calls, on any
    object, [reset] puts the five state variables back to those values, and
    on the object [Vehicle()] built it gives back that very object. *)
Theorem reset_restores_initial_state :
  (x Vehicle_init = lit 0 /\ v Vehicle_init = lit 5 /\ a Vehicle_init = lit 0 /\
   w_e Vehicle_init = lit 100 /\ w_e_dot Vehicle_init = lit 0 /\
   sample_time Vehicle_init = lit 0.01) /\
  (forall (inputs : list (F * F)) self,
     let r := exec reset (run (steps inputs) self) in
     x r = lit 0 /\ v r = lit 5 /\ a r = lit 0 /\ w_e r = lit 100 /\
     w_e_dot r = lit 0) /\
  (forall inputs : list (F * F),
     exec reset (run (steps inputs) Vehicle_init) = Vehicle_init).
Proof.
  split; [repeat split|]. split.
  - intros inputs self; cbv zeta; unfold exec; rewrite reset_eq; repeat split.
  - intros inputs. symmetry. apply vehicle_ext.
    + eapply same_params_trans; [apply run_same_params | apply reset_same_params].
    + unfold exec; rewrite reset_eq; repeat split.
Qed.

(** C6: a call of [step] and a call of [reset] leave the twelve physical
    parameters and the sampling time as they were, and so does any sequence
    of such calls; every attribute [reset] changes is one of the five state
    variables. *)
Theorem parameters_never_mutated :
  (forall throttle alpha self,
     same_params self (exec (step throttle alpha) self)) /\
  (forall self, same_params self (exec reset self)) /\
  (forall (ks : list (call F)) self, same_params self (run ks self)).
Proof.
  split; [|split].
  - intros; apply step_same_params.
  - intros; apply reset_same_params.
  - intros; apply run_same_params.
Qed.

(** C10: the object [step] leaves does not depend on what [a] and
    [w_e_dot] held before the call: two objects with the same parameters,
    the same [x], [v] and [w_e] are taken by the same inputs to the same
    object. *)
Theorem step_ignores_old_a_and_w_e_dot (p q : Vehicle F) throttle alpha :
  same_params p q ->
  x p = x q -> v p = v q -> w_e p = w_e q ->
  step throttle alpha p = step throttle alpha q.
Proof.
  intros Hp Hx Hv Hw.
  rewrite !step_eq.
  destruct p, q; unfold same_params in Hp; cbn in *.
  repeat match goal with H : _ /\ _ |- _ => destruct H end.
  subst; reflexivity.
Qed.

End Structure.

(** ** Properties over the real numbers *)

Section Exact.

Local Open Scope R_scope.

Implicit Types (self : Vehicle R) (throttle alpha : R).

Lemma fltb_R_true (p q : R) : fltb p q = true <-> p < q.
Proof.
  cbn; destruct (Rlt_dec p q); split; intros; try discriminate; tauto.
Qed.

Lemma fltb_R_false (p q : R) : fltb p q = false <-> q <= p.
Proof.
  cbn; destruct (Rlt_dec p q); split; intros; try discriminate;
    try reflexivity; lra.
Qed.

Lemma lit_half : lit (F := R) 0.5%Q = / 2.
Proof. cbn; unfold Q2R; cbn; lra. Qed.

Lemma lit_one : lit (F := R) 1%Q = 1.
Proof. cbn; unfold Q2R; cbn; lra. Qed.

(** Polynomial identities between expressions of the interface. *)
Ltac real_identity :=
  cbn [fadd fsub fmul fpow Arith_R]; rewrite ?lit_half; lra.

(** The tyre force of the equations, by cases on the slip ratio. *)
Lemma eq_F_x_linear self :
  Rabs (eq_s self) < 1 -> eq_F_x self = c self * eq_s self.
Proof.
  intros H; unfold eq_F_x.
  replace (fltb (fabs (eq_s self)) (lit 1%Q)) with true; [reflexivity|].
  symmetry; apply fltb_R_true; rewrite lit_one; exact H.
Qed.

Lemma eq_F_x_saturated self :
  1 <= Rabs (eq_s self) -> eq_F_x self = F_max self.
Proof.
  intros H; unfold eq_F_x.
  replace (fltb (fabs (eq_s self)) (lit 1%Q)) with false; [reflexivity|].
  symmetry; apply fltb_R_false; rewrite lit_one; exact H.
Qed.

(** C1: one call of [step] returns nothing and leaves the object the
    equations describe: the parameters and the sampling time as they were,
    and T_e = throttle*(a0 + a1*w_e + a2*w_e^2), F_aero = c_a*v^2,
    R_x = c_r1*v, F_g = m*g*sin(incline), F_load = F_aero + R_x + F_g,
    w_e_dot' = (T_e - GR*r_e*F_load)/J_e, w_w = GR*w_e,
    s = (w_w*r_e - v)/v, F_x = c*s if |s| < 1 else F_max,
    a' = (F_x - F_load)/m, w_e' = w_e + w_e_dot'*dt, v' = v + a'*dt,
    x' = x + v'*dt - 0.5*a'*dt^2, every right-hand side on the values of
    before the call. *)
Theorem step_equations self throttle incline_angle :
  step throttle incline_angle self = (tt, step_spec self throttle incline_angle).
Proof.
  rewrite step_eq; cbv zeta; unfold step_spec.
  do 2 f_equal.
  unfold eq_x, eq_v; real_identity.
Qed.

(** C2: the slip ratio is s = (GR*w_e*r_e - v)/v on the values of before the
    call; the tyre force is one test on |s| < 1 and nothing more: c*s when
    |s| < 1 and F_max, with its sign as stored, whenever 1 <= |s|, in
    particular at |s| = 1 and for s <= -1; the acceleration stored is
    (F_x - F_load)/m with that force. *)
Theorem tire_force_piecewise self throttle alpha :
  let loc := fst (step_forces throttle alpha self) in
  s loc = (GR self * w_e self * r_e self - v self) / v self /\
  F_x loc = (if Rlt_dec (Rabs (s loc)) 1 then c self * s loc else F_max self) /\
  (Rabs (s loc) < 1 -> F_x loc = c self * s loc) /\
  (1 <= Rabs (s loc) -> F_x loc = F_max self) /\
  (Rabs (s loc) = 1 -> F_x loc = F_max self) /\
  (s loc <= -1 -> F_x loc = F_max self) /\
  a (exec (step throttle alpha) self) = (F_x loc - F_load loc) / m self.
Proof.
  cbv zeta; unfold exec; rewrite step_eq, step_forces_eq.
  cbn [fst snd s F_x F_load locals_spec a].
  split; [reflexivity|].
  split.
  { destruct (Rlt_dec (Rabs (eq_s self)) 1) as [Hlt|Hge].
    - apply eq_F_x_linear; exact Hlt.
    - apply eq_F_x_saturated; lra. }
  split; [apply eq_F_x_linear|].
  split; [apply eq_F_x_saturated|].
  split; [intros H; apply eq_F_x_saturated; lra|].
  split; [|reflexivity].
  intros H; apply eq_F_x_saturated.
  rewrite Rabs_left1 by lra; lra.
Qed.

(** C3: the closing assignments run in the order [w_e], [v], [x], each on
    the object the one before left: the first stores w_e + w_e_dot*dt and
    leaves [v] and [x], the second stores v + a*dt and leaves [x], the third
    stores x + (v'*dt - 0.5*a*dt**2) with the velocity v' the second has
    just stored.  So after a call the engine speed is w_e + w_e_dot'*dt,
    the velocity v + a'*dt with the acceleration a' computed from the
    values of before the call, and the position is built from the new
    velocity; all this for every arithmetic.  Over the reals the position
    is x + v'*dt - 0.5*a'*dt^2, which is a'*dt*dt away from the value the
    old velocity would give. *)
Theorem position_uses_updated_velocity :
  (forall (F : Type) (AF : Arith F) (o : Vehicle F),
     let o1 := set_w_e o (w_e o + w_e_dot o * sample_time o)%ar in
     let o2 := set_v o1 (v o1 + a o1 * sample_time o1)%ar in
     let o3 := set_x o2 (x o2 + (v o2 * sample_time o2
                                 - lit 0.5 * a o2 * sample_time o2 ** 2))%ar in
     exec step_update o = o3 /\
     (w_e o1 = (w_e o + w_e_dot o * sample_time o)%ar /\
      v o1 = v o /\ x o1 = x o) /\
     (v o2 = (v o + a o * sample_time o)%ar /\
      w_e o2 = w_e o1 /\ x o2 = x o) /\
     (x o3 = (x o + (v o2 * sample_time o
                     - lit 0.5 * a o * sample_time o ** 2))%ar /\
      w_e o3 = w_e o1 /\ v o3 = v o2) /\
     w_e_dot o3 = w_e_dot o /\ a o3 = a o /\ same_params o o3) /\
  (forall (F : Type) (AF : Arith F) (self : Vehicle F) (throttle alpha : F),
     let mid := exec (step_forces throttle alpha) self in
     let post := exec (step throttle alpha) self in
     let dt := sample_time self in
     step throttle alpha self = step_update mid /\
     w_e_dot post = eq_w_e_dot self throttle alpha /\
     a post = eq_a self alpha /\
     w_e post = (w_e self + w_e_dot post * dt)%ar /\
     v post = (v self + a post * dt)%ar /\
     x post = (x self + (v post * dt - lit 0.5 * a post * dt ** 2))%ar) /\
  (forall (self : Vehicle R) (throttle alpha : R),
     let mid := exec (step_forces throttle alpha) self in
     let post := exec (step throttle alpha) self in
     let dt := sample_time self in
     step throttle alpha self = step_update mid /\
     (forall o : Vehicle R,
        exec step_update o =
        let o1 := set_w_e o (w_e o + w_e_dot o * sample_time o) in
        let o2 := set_v o1 (v o1 + a o1 * sample_time o1) in
        set_x o2 (x o2 + (v o2 * sample_time o2
                          - 0.5 * a o2 * sample_time o2 ^ 2))) /\
     a post = eq_a self alpha /\
     w_e post = w_e self + w_e_dot post * dt /\
     v post = v self + a post * dt /\
     x post = x self + v post * dt - 0.5 * a post * dt ^ 2 /\
     x post - (x self + v self * dt - 0.5 * a post * dt ^ 2)
       = a post * dt * dt).
Proof.
  split; [|split].
  - intros F AF o; cbv zeta.
    unfold exec; rewrite step_update_eq; cbv zeta; cbn.
    repeat split.
  - intros F AF self throttle alpha; cbv zeta.
    unfold exec; rewrite step_eq, step_forces_eq; cbn.
    repeat split.
  - intros self throttle alpha.
    cbv zeta; unfold exec; rewrite step_eq, step_forces_eq.
    split; [reflexivity|].
    split.
    { intros o; unfold exec; rewrite step_update_eq; reflexivity. }
    cbn [snd a v x w_e w_e_dot sample_time].
    split; [reflexivity|].
    split; [reflexivity|].
    split; [reflexivity|].
    split; real_identity.
Qed.

(** C9: over the reals the position [step] stores is the textbook one,
    x + v*dt + 0.5*a'*dt^2 with the velocity v of before the call and the
    acceleration a' of this call, whatever the object and its sampling
    time. *)
Theorem position_is_textbook_update self throttle alpha :
  let post := exec (step throttle alpha) self in
  let dt := sample_time self in
  x post = x self + (v self + a post * dt) * dt - 0.5 * a post * dt ^ 2 /\
  x post = x self + v self * dt + 0.5 * a post * dt ^ 2.
Proof.
  cbv zeta; unfold exec; rewrite step_eq.
  cbn [snd a v x sample_time].
  split; real_identity.
Qed.

(** *** Concrete calls *)

(** Literals of the source, as reals. *)
Ltac real_literals := cbn; unfold Q2R; cbn; try lra.

(** Slip ratio of the object [Vehicle()] builds: 1.1, the saturated
    regime. *)
Example init_slip : eq_s (Vehicle_init (F := R)) = 1.1.
Proof. unfold eq_s, eq_w_w; real_literals. Qed.

Example init_tire_force : eq_F_x (Vehicle_init (F := R)) = 10000.
Proof.
  rewrite eq_F_x_saturated.
  - real_literals.
  - rewrite init_slip, Rabs_pos_eq; lra.
Qed.

(** The first call after construction with throttle 0.2 on a flat road. *)
Example first_step :
  let post := exec (step 0.2 0) Vehicle_init in
  w_e_dot post = 7.802475 /\ a post = 4.982975 /\
  w_e post = 100.07802475 /\ v post = 5.04982975 /\
  x post = 0.05024914875.
Proof.
  assert (Ha : eq_a (Vehicle_init (F := R)) 0 = 4.982975).
  { unfold eq_a; rewrite init_tire_force.
    unfold eq_F_load, eq_F_aero, eq_R_x, eq_F_g.
    cbn; rewrite sin_0; unfold Q2R; cbn; lra. }
  assert (Hw : eq_w_e_dot (Vehicle_init (F := R)) 0.2 0 = 7.802475).
  { unfold eq_w_e_dot, eq_T_e, eq_F_load, eq_F_aero, eq_R_x, eq_F_g.
    cbn; rewrite sin_0; unfold Q2R; cbn; lra. }
  cbv zeta; unfold exec; rewrite step_eq; cbv zeta.
  cbn [snd w_e_dot a w_e v x]; rewrite Ha, Hw.
  repeat split; real_literals.
Qed.

(** An object on the boundary of the two regimes: v = 5.25 gives s = 1. *)
Example boundary_slip :
  eq_s (set_v (Vehicle_init (F := R)) 5.25) = 1.
Proof. unfold eq_s, eq_w_w; real_literals. Qed.

Lemma tire_force_piecewise_boundary :
  let self := set_v (Vehicle_init (F := R)) 5.25 in
  let loc := fst (step_forces 0.2 0 self) in
  Rabs (s loc) = 1 /\ F_x loc = F_max self /\ F_x loc = 10000.
Proof.
  cbv zeta.
  pose proof (tire_force_piecewise (set_v (Vehicle_init (F := R)) 5.25) 0.2 0)
    as (_ & _ & _ & _ & Hone & _).
  cbv zeta in Hone.
  assert (Hs : Rabs (s (fst (step_forces 0.2 0
                               (set_v (Vehicle_init (F := R)) 5.25)))) = 1).
  { rewrite step_forces_eq; cbn [fst s locals_spec].
    rewrite boundary_slip; apply Rabs_pos_eq; lra. }
  split; [exact Hs|].
  split; [exact (Hone Hs)|].
  rewrite (Hone Hs); real_literals.
Defined.

(** Two objects that differ in [a] and [w_e_dot] only. *)
Lemma step_ignores_old_a_and_w_e_dot_at_init :
  let p := Vehicle_init (F := R) in
  let q := set_a (set_w_e_dot Vehicle_init 7) 3 in
  a p <> a q /\ w_e_dot p <> w_e_dot q /\
  step 0.2 0 p = step 0.2 0 q.
Proof.
  cbv zeta.
  split; [real_literals|]. split; [real_literals|].
  apply step_ignores_old_a_and_w_e_dot; repeat split.
Defined.

End Exact.

(** ** Division by zero, with the special values *)

Section SpecialValues.

Local Open Scope R_scope.

Implicit Types (self : Vehicle R) (throttle alpha : R).

(** Values of the literals of [Vehicle()]. *)
Ltac init_literals := cbn; unfold Q2R; cbn; try lra.

Lemma xdiv_finite (p q : R) :
  q <> 0 -> xdiv (Finite p) (Finite q) = Finite (p / q).
Proof.
  intros Hq; cbn [xdiv].
  destruct (Req_dec_T q 0) as [E|_]; [contradiction|reflexivity].
Qed.

(** A finite dividend over zero is infinite or not a number, and its
    magnitude is not below any finite bound. *)
Lemma xdiv_by_zero (p bound : R) :
  is_finite (xdiv (Finite p) (Finite 0)) = false /\
  xltb (xabs (xdiv (Finite p) (Finite 0))) (Finite bound) = false.
Proof.
  cbn [xdiv].
  destruct (Req_dec_T 0 0) as [_|N]; [|contradiction N; reflexivity].
  destruct (Req_dec_T p 0); split; reflexivity.
Qed.

Lemma eq_T_e_lift self throttle :
  eq_T_e (lift self) (Finite throttle) = Finite (eq_T_e self throttle).
Proof. reflexivity. Qed.

Lemma eq_F_load_lift self alpha :
  eq_F_load (lift self) (Finite alpha) = Finite (eq_F_load self alpha).
Proof. reflexivity. Qed.

Lemma eq_w_e_dot_lift self throttle alpha :
  J_e self <> 0 ->
  eq_w_e_dot (lift self) (Finite throttle) (Finite alpha)
  = Finite (eq_w_e_dot self throttle alpha).
Proof.
  intros HJ. unfold eq_w_e_dot at 1.
  rewrite eq_T_e_lift, eq_F_load_lift.
  cbn [lift GR r_e J_e fmul fsub fdiv Arith_xreal xmul xsub].
  rewrite (xdiv_finite _ HJ). reflexivity.
Qed.

Lemma eq_s_lift self :
  eq_s (lift self)
  = xdiv (Finite (GR self * w_e self * r_e self - v self)) (Finite (v self)).
Proof. reflexivity. Qed.

Lemma eq_F_x_lift self :
  v self <> 0 -> eq_F_x (lift self) = Finite (eq_F_x self).
Proof.
  intros Hv. unfold eq_F_x.
  rewrite eq_s_lift, (xdiv_finite _ Hv).
  change (eq_s self)
    with ((GR self * w_e self * r_e self - v self) / v self).
  cbn [lift c F_max fmul fabs fltb lit Arith_xreal Arith_R xabs xltb xmul].
  destruct (Rlt_dec _ _); reflexivity.
Qed.

Lemma eq_F_x_lift_stopped self :
  v self = 0 -> eq_F_x (lift self) = Finite (F_max self).
Proof.
  intros Hv. unfold eq_F_x.
  rewrite eq_s_lift, Hv.
  cbn [fabs fltb lit Arith_xreal].
  rewrite (proj2 (xdiv_by_zero _ _)). reflexivity.
Qed.

Lemma eq_a_lift self alpha :
  v self <> 0 -> m self <> 0 ->
  eq_a (lift self) (Finite alpha) = Finite (eq_a self alpha).
Proof.
  intros Hv Hm. unfold eq_a at 1.
  rewrite (eq_F_x_lift self Hv), eq_F_load_lift.
  cbn [lift m fsub fdiv Arith_xreal xsub].
  rewrite (xdiv_finite _ Hm). reflexivity.
Qed.

Lemma eq_a_lift_stopped self alpha :
  v self = 0 -> m self <> 0 ->
  eq_a (lift self) (Finite alpha)
  = Finite ((F_max self - eq_F_load self alpha) / m self).
Proof.
  intros Hv Hm. unfold eq_a at 1.
  rewrite (eq_F_x_lift_stopped self Hv), eq_F_load_lift.
  cbn [lift m fsub fdiv Arith_xreal xsub].
  rewrite (xdiv_finite _ Hm). reflexivity.
Qed.

(** C8: [step] divides by [J_e], by [v] and by [m], and by nothing else;
    only [v] is a state variable.  On real values, with [J_e] and [m] not
    zero: when [v] is not zero no division has a zero divisor, the slip
    ratio is finite and the call leaves what exact arithmetic gives; when
    [v] is zero nothing tests it, the slip ratio is divided by zero and is
    infinite or not a number, the test on its magnitude fails, the tyre
    force is [F_max], and the call runs to its end without raising, leaving
    real values in the five state variables. *)
Theorem slip_division_unguarded self throttle alpha :
  J_e self <> 0 -> m self <> 0 ->
  let xstep := step (Finite throttle) (Finite alpha) (lift self) in
  let loc := fst (step_forces (Finite throttle) (Finite alpha) (lift self)) in
  (v self <> 0 ->
     is_finite (s loc) = true /\
     xstep = (tt, lift (exec (step throttle alpha) self))) /\
  (v self = 0 ->
     s loc = xdiv (Finite (GR self * w_e self * r_e self - v self)) (Finite 0) /\
     is_finite (s loc) = false /\
     F_x loc = Finite (F_max self) /\
     exists post : Vehicle R,
       xstep = (tt, lift post) /\
       same_params self post /\
       w_e_dot post = eq_w_e_dot self throttle alpha /\
       a post = (F_max self - eq_F_load self alpha) / m self /\
       w_e post = w_e self + w_e_dot post * sample_time self /\
       v post = v self + a post * sample_time self /\
       x post = x self + (v post * sample_time self
                          - 0.5 * a post * sample_time self ^ 2)).
Proof.
  intros HJ Hm; cbv zeta.
  rewrite step_forces_eq; cbn [fst s F_x locals_spec].
  split.
  - intros Hv. split.
    + rewrite eq_s_lift, (xdiv_finite _ Hv). reflexivity.
    + unfold exec. rewrite !step_eq; cbv zeta.
      rewrite (eq_w_e_dot_lift self throttle alpha HJ),
        (eq_a_lift self alpha Hv Hm).
      reflexivity.
  - intros Hv.
    split; [rewrite eq_s_lift, Hv; reflexivity|].
    split; [rewrite eq_s_lift, Hv; exact (proj1 (xdiv_by_zero _ 0))|].
    split; [apply eq_F_x_lift_stopped; exact Hv|].
    eexists (mkVehicle (a_0 self) (a_1 self) (a_2 self) (GR self) (r_e self)
               (J_e self) (m self) (g self) (c_a self) (c_r1 self) (c self)
               (F_max self) _ _ _ _ _ (sample_time self)).
    split.
    + rewrite step_eq; cbv zeta.
      rewrite (eq_w_e_dot_lift self throttle alpha HJ),
        (eq_a_lift_stopped self alpha Hv Hm).
      reflexivity.
    + cbn [w_e_dot a w_e v x]. split; [repeat split|].
      repeat split.
Qed.

(** With the parameters of [Vehicle()]: at v = 5 the call agrees with exact
    arithmetic; at v = 0 the slip ratio is plus infinity, the force is
    [F_max] and the stored acceleration is (F_max - F_load)/m. *)
Lemma slip_division_unguarded_at_init :
  let moving := Vehicle_init (F := R) in
  let stopped := set_v (Vehicle_init (F := R)) 0 in
  (J_e moving <> 0 /\ m moving <> 0 /\ v moving <> 0 /\ v stopped = 0) /\
  step (Finite 0.2) (Finite 0) (lift moving)
    = (tt, lift (exec (step 0.2 0) moving)) /\
  s (fst (step_forces (Finite 0.2) (Finite 0) (lift stopped))) = Inf false /\
  F_x (fst (step_forces (Finite 0.2) (Finite 0) (lift stopped)))
    = Finite (F_max stopped) /\
  exists post : Vehicle R,
    step (Finite 0.2) (Finite 0) (lift stopped) = (tt, lift post) /\
    a post = (F_max stopped - eq_F_load stopped 0) / m stopped.
Proof.
  cbv zeta.
  assert (HJ : J_e (Vehicle_init (F := R)) <> 0) by init_literals.
  assert (Hm : m (Vehicle_init (F := R)) <> 0) by init_literals.
  assert (Hv : v (Vehicle_init (F := R)) <> 0) by init_literals.
  assert (H0 : v (set_v (Vehicle_init (F := R)) 0) = 0) by reflexivity.
  split; [repeat split; assumption|].
  destruct (slip_division_unguarded (Vehicle_init (F := R)) 0.2 0 HJ Hm)
    as [Hmoving _].
  destruct (slip_division_unguarded (set_v (Vehicle_init (F := R)) 0) 0.2 0
              HJ Hm) as [_ Hstopped].
  cbv zeta in Hmoving, Hstopped.
  destruct (Hmoving Hv) as [_ Hrun].
  destruct (Hstopped H0) as (Hs & _ & HF & post & Hpost & _ & _ & Ha & _).
  split; [exact Hrun|].
  split.
  { rewrite Hs. cbn [xdiv].
    destruct (Req_dec_T 0 0) as [_|N]; [|contradiction N; reflexivity].
    destruct (Req_dec_T _ 0) as [E|_].
    - exfalso. revert E. init_literals.
    - f_equal. unfold Rnegative.
      destruct (Rlt_dec _ 0) as [L|_]; [|reflexivity].
      exfalso. revert L. init_literals. }
  split; [exact HF|].
  exists post. split; [exact Hpost|exact Ha].
Defined.

End SpecialValues.

(** ** The cells, for every arithmetic *)

Section Cells.

Context {F : Type} {AF : Arith F} {AT : Arctan F}.
Local Open Scope arith_scope.

Lemma setitem_spec (arr : list F) :
  forall (i : nat) (val : F),
    setitem arr i val =
    if Nat.ltb i (length arr)
    then Some (firstn i arr ++ val :: skipn (S i) arr)
    else None.
Proof.
  induction arr as [|hd tl IH]; intros i val.
  - destruct i; reflexivity.
  - destruct i as [|j]; [reflexivity|].
    cbn [setitem length]. rewrite IH.
    change (Nat.ltb (S j) (S (length tl))) with (Nat.ltb j (length tl)).
    destruct (Nat.ltb j (length tl)); reflexivity.
Qed.

(** Writing just past a prefix replaces the element that follows it. *)
Lemma setitem_at (pre : list F) (i : nat) :
  length pre = i ->
  forall (hd : F) (tl : list F) (val : F),
    setitem (pre ++ hd :: tl) i val = Some (pre ++ val :: tl).
Proof.
  intros <- hd tl val.
  induction pre as [|p pre IH]; [reflexivity|].
  cbn [app length setitem]. rewrite IH. reflexivity.
Qed.

Lemma getitem_at (pre : list F) (i : nat) :
  length pre = i ->
  forall (hd : F) (tl : list F), getitem (pre ++ hd :: tl) i = Some hd.
Proof.
  intros <- hd tl.
  induction pre as [|p pre IH]; [reflexivity|exact IH].
Qed.

Lemma angle_eq (i : nat) (alpha : list F) (x0 : F) :
  angle i alpha x0 = setitem alpha i (angle_value x0).
Proof.
  unfold angle, angle_value.
  destruct (x0 <? lit 60); [reflexivity|].
  destruct (x0 <? lit 150); reflexivity.
Qed.

(** One turn of the ramp loop at the index that follows the prefixes. *)
Lemma ramp_body_at (i : nat) (tpre : list F) (t : F) (ts : list F)
    (p1 p2 p3 p4 p5 : list F) (h1 h2 h3 h4 h5 : F) (r1 r2 r3 r4 r5 : list F)
    (model : Vehicle F) :
  length tpre = i ->
  length p1 = i -> length p2 = i -> length p3 = i -> length p4 = i ->
  length p5 = i ->
  ramp_body (tpre ++ t :: ts) i
    (Ramp.mk (p1 ++ h1 :: r1) (p2 ++ h2 :: r2) (p3 ++ h3 :: r3)
             (p4 ++ h4 :: r4) (p5 ++ h5 :: r5) model) =
  let throttle := throttle_profile t in
  let alpha := angle_value (x model) in
  let model' := exec (step throttle alpha) model in
  Some (Ramp.mk (p1 ++ throttle :: r1) (p2 ++ alpha :: r2)
                (p3 ++ x model' :: r3) (p4 ++ v model' :: r4)
                (p5 ++ w_e model' :: r5) model').
Proof.
  intros Et E1 E2 E3 E4 E5.
  unfold ramp_body.
  rewrite (@getitem_at tpre i Et).
  cbn [and_then Ramp.throttle Ramp.alpha Ramp.model Ramp.x_data Ramp.v_data
       Ramp.w_e_data].
  rewrite !angle_eq, !(@setitem_at p1 i E1), !(@setitem_at p2 i E2).
  cbn [and_then].
  unfold throttle_profile.
  destruct (t <? lit 5); [|destruct (t <? lit 15)];
    cbn [and_then];
    rewrite (@getitem_at p1 i E1), (@getitem_at p2 i E2); cbn [and_then];
    rewrite (@setitem_at p3 i E3), (@setitem_at p4 i E4), (@setitem_at p5 i E5);
    reflexivity.
Qed.

Lemma app_cons_snoc (pre : list F) (hd : F) (tl : list F) :
  pre ++ hd :: tl = (pre ++ [hd]) ++ tl.
Proof. rewrite <- app_assoc; reflexivity. Qed.

Lemma length_snoc (pre : list F) (hd : F) (i : nat) :
  length pre = i -> length (pre ++ [hd]) = S i.
Proof. intros <-; rewrite length_app; cbn; apply Nat.add_1_r. Qed.

(** The ramp loop from index [i] on, the arrays being filled up to [i]. *)
Lemma ramp_loop_from (ts : list F) :
  forall (i : nat) (tpre p1 p2 p3 p4 p5 r1 r2 r3 r4 r5 : list F)
         (model : Vehicle F),
    length tpre = i ->
    length p1 = i -> length p2 = i -> length p3 = i -> length p4 = i ->
    length p5 = i ->
    length r1 = length ts -> length r2 = length ts -> length r3 = length ts ->
    length r4 = length ts -> length r5 = length ts ->
    for_each (ramp_body (tpre ++ ts)) (seq i (length ts))
      (Ramp.mk (p1 ++ r1) (p2 ++ r2) (p3 ++ r3) (p4 ++ r4) (p5 ++ r5) model) =
    let tr := ramp_trace ts model in
    Some (Ramp.mk (p1 ++ map (fun e => fst (fst e)) tr)
                  (p2 ++ map (fun e => snd (fst e)) tr)
                  (p3 ++ map (fun e => x (snd e)) tr)
                  (p4 ++ map (fun e => v (snd e)) tr)
                  (p5 ++ map (fun e => w_e (snd e)) tr)
                  (ramp_final ts model)).
Proof.
  induction ts as [|t ts IH];
    intros i tpre p1 p2 p3 p4 p5 r1 r2 r3 r4 r5 model
           Et E1 E2 E3 E4 E5 L1 L2 L3 L4 L5.
  - destruct r1, r2, r3, r4, r5; try discriminate. reflexivity.
  - destruct r1 as [|h1 r1]; [discriminate|].
    destruct r2 as [|h2 r2]; [discriminate|].
    destruct r3 as [|h3 r3]; [discriminate|].
    destruct r4 as [|h4 r4]; [discriminate|].
    destruct r5 as [|h5 r5]; [discriminate|].
    cbn [length] in *.
    apply Nat.succ_inj in L1, L2, L3, L4, L5.
    cbn [seq for_each].
    rewrite (@ramp_body_at i tpre t ts p1 p2 p3 p4 p5 h1 h2 h3 h4 h5
               r1 r2 r3 r4 r5 model Et E1 E2 E3 E4 E5).
    cbv zeta.
    rewrite (app_cons_snoc tpre), (app_cons_snoc p1), (app_cons_snoc p2),
      (app_cons_snoc p3), (app_cons_snoc p4), (app_cons_snoc p5).
    rewrite (IH (S i)); auto using length_snoc.
    cbv zeta. cbn [ramp_trace ramp_final map fst snd].
    rewrite <- !app_cons_snoc. reflexivity.
Qed.

Lemma zeros_like_length (t_data : list F) :
  length (zeros_like t_data) = length t_data.
Proof. apply length_map. Qed.

(** The ramp cell never raises, and its arrays are the columns of the
    trace. *)
Lemma ramp_cell_eq (t_data : list F) (model : Vehicle F) :
  ramp_cell t_data model =
  let tr := ramp_trace t_data (exec reset model) in
  Some (Ramp.mk (map (fun e => fst (fst e)) tr)
                (map (fun e => snd (fst e)) tr)
                (map (fun e => x (snd e)) tr)
                (map (fun e => v (snd e)) tr)
                (map (fun e => w_e (snd e)) tr)
                (ramp_final t_data (exec reset model))).
Proof.
  unfold ramp_cell, for_range; cbv zeta.
  exact (@ramp_loop_from t_data 0 [] [] [] [] [] []
           (zeros_like t_data) (zeros_like t_data) (zeros_like t_data)
           (zeros_like t_data) (zeros_like t_data) (exec reset model)
           eq_refl eq_refl eq_refl eq_refl eq_refl eq_refl
           (zeros_like_length t_data) (zeros_like_length t_data)
           (zeros_like_length t_data) (zeros_like_length t_data)
           (zeros_like_length t_data)).
Qed.

Lemma ramp_trace_length (ts : list F) :
  forall model : Vehicle F, length (ramp_trace ts model) = length ts.
Proof.
  induction ts as [|t ts IH]; intros model; cbn; [reflexivity|].
  rewrite IH; reflexivity.
Qed.

(** The model at the end of the trace is the run of one [step] per entry. *)
Lemma ramp_final_run (ts : list F) :
  forall model : Vehicle F,
    ramp_final ts model =
    run (steps (map fst (ramp_trace ts model))) model.
Proof.
  induction ts as [|t ts IH]; intros model; [reflexivity|].
  cbn [ramp_final ramp_trace map steps run do_call fst snd].
  rewrite IH. reflexivity.
Qed.

Lemma combine_trace_columns (tr : list (F * F * Vehicle F)) :
  combine (map (fun e => fst (fst e)) tr) (map (fun e => snd (fst e)) tr) =
  map fst tr.
Proof.
  induction tr as [|[[th al] mo] tr IH]; [reflexivity|].
  cbn [map combine fst snd]. rewrite IH. reflexivity.
Qed.

(** The incline of an entry is read off the position the entry before it
    left. *)
Lemma ramp_trace_lag (ts : list F) :
  forall (model : Vehicle F) (i : nat) (e : F * F * Vehicle F),
    nth_error (ramp_trace ts model) (S i) = Some e ->
    exists e0, nth_error (ramp_trace ts model) i = Some e0 /\
               snd (fst e) = angle_value (x (snd e0)).
Proof.
  induction ts as [|t ts IH]; intros model i e He; [discriminate|].
  cbn [ramp_trace nth_error] in He.
  destruct i as [|j].
  - destruct ts as [|t' ts]; [discriminate|].
    cbn [ramp_trace nth_error] in He. injection He as <-.
    eexists; split; [reflexivity|reflexivity].
  - destruct (IH _ _ _ He) as (e0 & He0 & Hal).
    exists e0; split; [exact He0|exact Hal].
Qed.

(** An entry holds the model after as many steps as its index plus one. *)
Lemma ramp_trace_nth (ts : list F) :
  forall (model : Vehicle F) (i : nat) (e : F * F * Vehicle F),
    nth_error (ramp_trace ts model) i = Some e ->
    snd e = run (steps (firstn (S i) (map fst (ramp_trace ts model)))) model /\
    exists t, nth_error ts i = Some t /\ fst (fst e) = throttle_profile t.
Proof.
  induction ts as [|t ts IH]; intros model i e He; [destruct i; discriminate|].
  cbn [ramp_trace] in *.
  destruct i as [|j]; cbn [nth_error] in He.
  - injection He as <-. split; [reflexivity|].
    exists t; split; reflexivity.
  - destruct (IH _ _ _ He) as (Hrun & t' & Ht' & Hth).
    split.
    + rewrite Hrun. reflexivity.
    + exists t'; split; assumption.
Qed.

(** The constant-throttle loop from index [i] on. *)
Lemma constant_loop_from (n : nat) :
  forall (i : nat) (pre rest : list F) (model : Vehicle F),
    length pre = i -> length rest = n ->
    for_each constant_body (seq i n) (pre ++ rest, model) =
    Some (pre ++ velocity_trace n model,
          run (repeat (Step (lit 0.2) (lit 0)) n) model).
Proof.
  induction n as [|n IH]; intros i pre rest model Ei Ln.
  - destruct rest; [reflexivity|discriminate].
  - destruct rest as [|hd rest]; [discriminate|].
    cbn [length] in Ln. apply Nat.succ_inj in Ln.
    cbn [seq for_each constant_body].
    rewrite (@setitem_at pre i Ei). cbn [and_then].
    rewrite (app_cons_snoc pre).
    rewrite (IH (S i)); auto using length_snoc.
    cbn [velocity_trace repeat run do_call].
    rewrite <- app_cons_snoc. reflexivity.
Qed.

Lemma velocity_trace_nth (n : nat) :
  forall (model : Vehicle F) (i : nat),
    nth_error (velocity_trace n model) i =
    if Nat.ltb i n
    then Some (v (run (repeat (Step (lit 0.2) (lit 0)) i) model))
    else None.
Proof.
  induction n as [|n IH]; intros model i.
  - destruct i; reflexivity.
  - destruct i as [|j]; [reflexivity|].
    cbn [velocity_trace nth_error repeat run do_call].
    rewrite IH. reflexivity.
Qed.

(** X1: [angle(i, alpha, x)] with [i] below the length of [alpha] replaces
    the entry [i] by the incline of position [x] and leaves every other
    entry and the length alone; with [i] at or past the length it raises
    [IndexError] and stores nothing. *)
Theorem angle_stores_one_entry (i : nat) (alpha : list F) (x0 : F) :
  angle i alpha x0 =
  if Nat.ltb i (length alpha)
  then Some (firstn i alpha ++ angle_value x0 :: skipn (S i) alpha)
  else None.
Proof. rewrite angle_eq; apply setitem_spec. Qed.

(** X2: whatever the time grid and the model it starts from, the ramp cell
    runs to its end without an [IndexError]; its five arrays then have the
    length of the grid, the parameters of the model are untouched, and the
    model is the one [reset] followed by one [step] per grid point leaves,
    the steps taking the throttle and the incline recorded in the arrays
    [throttle] and [alpha]. *)
Theorem ramp_cell_runs (t_data : list F) (model : Vehicle F) :
  exists w : Ramp.workspace F,
    ramp_cell t_data model = Some w /\
    (length (Ramp.throttle w) = length t_data /\
     length (Ramp.alpha w) = length t_data /\
     length (Ramp.x_data w) = length t_data /\
     length (Ramp.v_data w) = length t_data /\
     length (Ramp.w_e_data w) = length t_data) /\
    Ramp.model w =
      run (Reset :: steps (combine (Ramp.throttle w) (Ramp.alpha w))) model /\
    same_params model (Ramp.model w).
Proof.
  eexists; split; [apply ramp_cell_eq|]; cbv zeta.
  cbn [Ramp.throttle Ramp.alpha Ramp.x_data Ramp.v_data Ramp.w_e_data
       Ramp.model].
  rewrite !length_map, ramp_trace_length.
  split; [repeat split|].
  assert (Hrun : ramp_final t_data (exec reset model) =
                 run (Reset :: steps (combine
                   (map (fun e => fst (fst e)) (ramp_trace t_data (exec reset model)))
                   (map (fun e => snd (fst e)) (ramp_trace t_data (exec reset model)))))
                   model).
  { rewrite combine_trace_columns, ramp_final_run. reflexivity. }
  split; [exact Hrun|].
  rewrite Hrun. apply run_same_params.
Qed.

(** X3: in the arrays the ramp cell leaves, [throttle[i]] is the profile at
    [t_data[i]]; [alpha[0]] is the incline at the position [reset] sets and
    [alpha[i+1]] the incline at [x_data[i]], the position before step
    [i+1]; [x_data[i]], [v_data[i]] and [w_e_data[i]] are read off the model
    after [i+1] steps. *)
Theorem ramp_cell_samples (t_data : list F) (model : Vehicle F) :
  exists w : Ramp.workspace F,
    ramp_cell t_data model = Some w /\
    (forall i th, nth_error (Ramp.throttle w) i = Some th ->
       exists t, nth_error t_data i = Some t /\ th = throttle_profile t) /\
    (forall al, nth_error (Ramp.alpha w) 0 = Some al ->
       al = angle_value (lit 0)) /\
    (forall i al, nth_error (Ramp.alpha w) (S i) = Some al ->
       exists xi, nth_error (Ramp.x_data w) i = Some xi /\
                  al = angle_value xi) /\
    (forall i,
       let after :=
         run (Reset :: firstn (S i)
                (steps (combine (Ramp.throttle w) (Ramp.alpha w)))) model in
       (i < length t_data)%nat ->
       nth_error (Ramp.x_data w) i = Some (x after) /\
       nth_error (Ramp.v_data w) i = Some (v after) /\
       nth_error (Ramp.w_e_data w) i = Some (w_e after)).
Proof.
  eexists; split; [apply ramp_cell_eq|]; cbv zeta.
  cbn [Ramp.throttle Ramp.alpha Ramp.x_data Ramp.v_data Ramp.w_e_data
       Ramp.model].
  set (m0 := exec reset model).
  split; [|split; [|split]].
  - intros i th Hth. rewrite nth_error_map in Hth.
    destruct (nth_error (ramp_trace t_data m0) i) as [e|] eqn:He; [|discriminate].
    injection Hth as <-.
    destruct (ramp_trace_nth _ _ _ He) as (_ & t & Ht & Hp).
    exists t; split; assumption.
  - intros al Hal. rewrite nth_error_map in Hal.
    subst m0. destruct t_data as [|t ts]; [discriminate|].
    cbn in Hal. injection Hal as <-. reflexivity.
  - intros i al Hal. rewrite nth_error_map in Hal.
    destruct (nth_error (ramp_trace t_data m0) (S i)) as [e|] eqn:He; [|discriminate].
    injection Hal as <-.
    destruct (ramp_trace_lag _ _ _ He) as (e0 & He0 & Hlag).
    exists (x (snd e0)); split; [|exact Hlag].
    rewrite nth_error_map, He0. reflexivity.
  - intros i Hi.
    remember (nth_error (ramp_trace t_data m0) i) as oe eqn:He; symmetry in He.
    destruct oe as [e|].
    + destruct (ramp_trace_nth _ _ _ He) as (Hrun & _).
      rewrite combine_trace_columns.
      assert (Hafter :
        run (Reset :: firstn (S i) (steps (map fst (ramp_trace t_data m0)))) model = snd e).
      { rewrite Hrun. unfold steps. rewrite firstn_map. reflexivity. }
      rewrite Hafter, !nth_error_map, He. repeat split.
    + apply nth_error_None in He.
      rewrite ramp_trace_length in He.
      exfalso. apply (Nat.lt_irrefl i).
      eapply Nat.lt_le_trans; eassumption.
Qed.

(** X4: the constant-throttle cell runs to its end without an [IndexError];
    [v_data[i]] is the velocity after [i] steps from [Vehicle()], so
    [v_data[0]] is the initial velocity 5 and the velocity the last step
    leaves is not recorded; the model has made one step per grid point. *)
Theorem constant_cell_samples (t_data : list F) :
  exists v_data : list F,
    constant_cell t_data =
      Some (v_data,
            run (repeat (Step (lit 0.2) (lit 0)) (length t_data)) Vehicle_init) /\
    length v_data = length t_data /\
    (forall i, (i < length t_data)%nat ->
       nth_error v_data i =
       Some (v (run (repeat (Step (lit 0.2) (lit 0)) i) Vehicle_init))) /\
    (t_data <> [] -> nth_error v_data 0 = Some (lit 5)).
Proof.
  exists (velocity_trace (length t_data) Vehicle_init).
  split.
  { unfold constant_cell, for_range.
    exact (@constant_loop_from (length t_data) 0 [] (zeros_like t_data)
             Vehicle_init eq_refl (zeros_like_length t_data)). }
  assert (Hnth : forall i, (i < length t_data)%nat ->
    nth_error (velocity_trace (length t_data) Vehicle_init) i =
    Some (v (run (repeat (Step (lit 0.2) (lit 0)) i) Vehicle_init))).
  { intros i Hi. rewrite velocity_trace_nth.
    apply Nat.ltb_lt in Hi. rewrite Hi. reflexivity. }
  split; [|split].
  - clear Hnth. generalize (Vehicle_init (F := F)).
    induction (length t_data) as [|n IH]; intros mo; cbn; [reflexivity|].
    rewrite IH; reflexivity.
  - exact Hnth.
  - intros Hne. destruct t_data as [|t ts]; [contradiction|]. reflexivity.
Qed.

(** [reset] on an object reached from [Vehicle()] gives [Vehicle()] back. *)
Lemma reset_after_run (ks : list (call F)) :
  exec reset (run ks Vehicle_init) = Vehicle_init.
Proof.
  symmetry. apply vehicle_ext.
  - eapply same_params_trans; [apply run_same_params|apply reset_same_params].
  - unfold exec; rewrite reset_eq; repeat split.
Qed.

(** X5: the ramp cell starts by [reset], so it does not see what earlier
    cells did to the shared global [model]: on the object [Vehicle()] built,
    after any calls of [step] and [reset], it leaves the arrays and the
    model it leaves on a new object. *)
Theorem ramp_cell_forgets_earlier_cells (t_data : list F) (ks : list (call F)) :
  ramp_cell t_data (run ks Vehicle_init) = ramp_cell t_data Vehicle_init.
Proof.
  rewrite !ramp_cell_eq; cbv zeta.
  pose proof (reset_after_run []) as Hinit; cbn [run] in Hinit.
  rewrite reset_after_run, Hinit. reflexivity.
Qed.

(** X6: the throttle of a call reaches the body one call late: the
    acceleration, the velocity and the position a call of [step] stores do
    not depend on its throttle, which only enters [w_e_dot] and [w_e]; so
    after any sequence of calls the throttle of the last [step] has changed
    neither [a], [v] nor [x]. *)
Theorem throttle_acts_one_step_late (ks : list (call F))
    (throttle1 throttle2 alpha : F) (self : Vehicle F) :
  let p := run (ks ++ [Step throttle1 alpha]) self in
  let q := run (ks ++ [Step throttle2 alpha]) self in
  a p = a q /\ v p = v q /\ x p = x q.
Proof.
  cbv zeta. rewrite !run_app. cbn [run do_call].
  unfold exec. rewrite !step_eq. cbn [snd a v x]. repeat split.
Qed.

(** X7: [step] never reads the position: started from another position it
    stores the same [w_e_dot], [a], [w_e] and [v], and the position moved
    by the same increment. *)
Theorem position_is_only_integrated (throttle alpha x0 : F) (self : Vehicle F) :
  let post := exec (step throttle alpha) self in
  exec (step throttle alpha) (set_x self x0) =
  set_x post (x0 + (v post * sample_time self
                    - lit 0.5 * a post * sample_time self ** 2)).
Proof.
  cbv zeta. unfold exec. rewrite !step_eq. reflexivity.
Qed.

End Cells.

(** ** Dynamics and cells over the real numbers *)

Section ExactDynamics.

Local Open Scope R_scope.

Implicit Types (self : Vehicle R) (throttle alpha : R).

(** Values of the literals of the cells. *)
Ltac cell_literals := cbn; unfold Q2R; cbn; try lra.

Lemma fltb_R_cases (p q : R) :
  (p < q /\ fltb p q = true) \/ (q <= p /\ fltb p q = false).
Proof.
  destruct (Rlt_dec p q) as [H|H].
  - left; split; [exact H|apply fltb_R_true; exact H].
  - right; split; [lra|apply fltb_R_false; lra].
Qed.

Lemma eq_s_R self :
  eq_s self = (GR self * w_e self * r_e self - v self) / v self.
Proof. reflexivity. Qed.

(** The slip ratio times the velocity is the speed of the wheel surface over
    the ground. *)
Lemma eq_s_times_v self :
  v self <> 0 ->
  eq_s self * v self = GR self * w_e self * r_e self - v self.
Proof. intros Hv; rewrite eq_s_R; field; exact Hv. Qed.

Lemma slip_window self :
  0 < v self ->
  (Rabs (eq_s self) < 1 <->
   0 < GR self * w_e self * r_e self < 2 * v self).
Proof.
  intros Hv.
  assert (Hs := eq_s_times_v self (Rgt_not_eq _ _ Hv)).
  split.
  - intros Habs. apply Rabs_def2 in Habs. destruct Habs as [Hlt Hgt]. nra.
  - intros [Hlo Hhi]. apply Rabs_def1; nra.
Qed.

(** X8: moving forward (v > 0), the tyre works in its linear regime exactly
    when the wheel surface runs forward slower than twice the vehicle,
    0 < GR*w_e*r_e < 2*v; then F_x = c*(GR*w_e*r_e - v)/v.  With the wheel
    stopped or turning backwards, or at twice the speed and more, the force
    is +F_max. *)
Theorem linear_regime_window self throttle alpha :
  0 < v self ->
  let W := GR self * w_e self * r_e self in
  let loc := fst (step_forces throttle alpha self) in
  (Rabs (s loc) < 1 <-> 0 < W < 2 * v self) /\
  (0 < W < 2 * v self -> F_x loc = c self * ((W - v self) / v self)) /\
  (W <= 0 \/ 2 * v self <= W -> F_x loc = F_max self).
Proof.
  intros Hv; cbv zeta. rewrite step_forces_eq.
  cbn [fst s F_x locals_spec].
  pose proof (slip_window self Hv) as Hwin.
  split; [exact Hwin|]. split.
  - intros HW. rewrite eq_F_x_linear by (apply Hwin; exact HW).
    reflexivity.
  - intros HW. apply eq_F_x_saturated.
    destruct (Rlt_dec (Rabs (eq_s self)) 1) as [Hlt|Hge]; [|lra].
    apply Hwin in Hlt. lra.
Qed.

(** X9: when the tyre stiffness equals the force limit, as in [Vehicle()],
    and the limit is not negative, the tyre force of a call never exceeds
    the limit in magnitude. *)
Theorem tire_force_bounded self throttle alpha :
  c self = F_max self -> 0 <= F_max self ->
  Rabs (F_x (fst (step_forces throttle alpha self))) <= F_max self.
Proof.
  intros Hc Hmax. rewrite step_forces_eq. cbn [fst F_x locals_spec].
  destruct (Rlt_dec (Rabs (eq_s self)) 1) as [Hlt|Hge].
  - rewrite (eq_F_x_linear self Hlt), Rabs_mult, Hc.
    rewrite (Rabs_pos_eq _ Hmax).
    pose proof (Rabs_pos (eq_s self)). nra.
  - rewrite eq_F_x_saturated by lra. rewrite Rabs_pos_eq; lra.
Qed.

(** X10: with a mass that is not zero, an incline [alpha] lowers the
    acceleration a call stores by exactly g*sin(alpha) against the flat
    road, whatever the mass, and the velocity by that times the sampling
    time. *)
Theorem incline_shifts_acceleration self throttle alpha :
  m self <> 0 ->
  let flat := exec (step throttle 0) self in
  let hill := exec (step throttle alpha) self in
  a hill = a flat - g self * sin alpha /\
  v hill = v flat - g self * sin alpha * sample_time self.
Proof.
  intros Hm; cbv zeta. unfold exec. rewrite !step_eq. cbn [snd a v].
  assert (Ha : eq_a self alpha = eq_a self 0 - g self * sin alpha).
  { unfold eq_a, eq_F_load, eq_F_g.
    cbn [fadd fsub fmul fdiv fsin Arith_R]. rewrite sin_0.
    field. exact Hm. }
  split; [exact Ha|].
  cbn [fadd fmul Arith_R]. rewrite Ha. ring.
Qed.

(** X11: with a positive engine inertia and sampling time, at an engine speed
    where the torque curve a0 + a1*w_e + a2*w_e^2 is positive, more throttle
    gives a strictly larger engine acceleration and engine speed. *)
Theorem throttle_raises_engine_speed self throttle1 throttle2 alpha :
  0 < J_e self -> 0 < sample_time self ->
  0 < a_0 self + a_1 self * w_e self + a_2 self * w_e self ^ 2 ->
  throttle1 < throttle2 ->
  w_e_dot (exec (step throttle1 alpha) self) <
  w_e_dot (exec (step throttle2 alpha) self) /\
  w_e (exec (step throttle1 alpha) self) <
  w_e (exec (step throttle2 alpha) self).
Proof.
  intros HJ Hdt Htorque Hth. unfold exec. rewrite !step_eq.
  cbn [snd w_e_dot w_e].
  assert (Hd : eq_w_e_dot self throttle1 alpha < eq_w_e_dot self throttle2 alpha).
  { unfold eq_w_e_dot, eq_T_e.
    cbn [fadd fsub fmul fdiv fpow Arith_R].
    unfold Rdiv. apply Rmult_lt_compat_r; [apply Rinv_0_lt_compat; exact HJ|].
    nra. }
  split; [exact Hd|].
  cbn [fadd fmul Arith_R]. nra.
Qed.

(** *** The two profiles of the ramp cell *)

Lemma angle_value_cases (x0 : R) :
  (x0 < 60 /\ angle_value x0 = atan (3 / 60)) \/
  (60 <= x0 < 150 /\ angle_value x0 = atan (9 / 90)) \/
  (150 <= x0 /\ angle_value x0 = 0).
Proof.
  unfold angle_value.
  assert (L60 : lit (F := R) 60%Q = 60) by cell_literals.
  assert (L150 : lit (F := R) 150%Q = 150) by cell_literals.
  destruct (fltb_R_cases x0 (lit 60%Q)) as [[H E]|[H E]]; rewrite E.
  - left; split; [lra|]. unfold farctan, Arctan_R. f_equal. cell_literals.
  - destruct (fltb_R_cases x0 (lit 150%Q)) as [[H' E']|[H' E']]; rewrite E'.
    + right; left; split; [lra|]. unfold farctan, Arctan_R. f_equal.
      cell_literals.
    + right; right; split; [lra|]. cell_literals.
Qed.

Lemma atan_nonneg (y : R) : 0 <= y -> 0 <= atan y.
Proof.
  intros [Hy | <-]; [|rewrite atan_0; lra].
  left. rewrite <- atan_0. apply atan_increasing. exact Hy.
Qed.

Lemma atan_le (y z : R) : y <= z -> atan y <= atan z.
Proof.
  intros [H | ->]; [left; apply atan_increasing; exact H|lra].
Qed.

Lemma angle_value_bounds (x0 : R) : 0 <= angle_value x0 <= atan (9 / 90).
Proof.
  assert (Hlo : 0 <= atan (3 / 60)) by (apply atan_nonneg; lra).
  assert (Hle : atan (3 / 60) <= atan (9 / 90)) by (apply atan_le; lra).
  destruct (angle_value_cases x0) as [[_ E]|[[_ E]|[_ E]]]; rewrite E; lra.
Qed.

(** X12: the incline [angle] stores is arctan(3/60) before 60 m,
    arctan(9/90) from 60 m to 150 m, and 0 from 150 m on; it is never
    negative, never above arctan(9/90), and its sine, which is all [step]
    uses of it, is never negative: the ramp never pushes the vehicle
    forward. *)
Theorem ramp_incline_values (x0 : R) :
  (x0 < 60 -> angle_value x0 = atan (3 / 60)) /\
  (60 <= x0 < 150 -> angle_value x0 = atan (9 / 90)) /\
  (150 <= x0 -> angle_value x0 = 0) /\
  0 <= angle_value x0 <= atan (9 / 90) /\
  0 <= sin (angle_value x0).
Proof.
  pose proof (angle_value_bounds x0) as Hrange.
  destruct (angle_value_cases x0) as [[H E]|[[H E]|[H E]]];
    (split; [intros; try lra; exact E|]);
    (split; [intros; try lra; exact E|]);
    (split; [intros; try lra; exact E|]);
    (split; [exact Hrange|]);
    (apply sin_ge_0; [lra|]);
    pose proof (atan_bound (9 / 90)); pose proof PI_RGT_0; lra.
Qed.

Lemma throttle_profile_cases (t : R) :
  (t < 5 /\ throttle_profile t = 0.2 + 0.06 * t) \/
  (5 <= t < 15 /\ throttle_profile t = 0.5) \/
  (15 <= t /\ throttle_profile t = 0.1 * (20 - t)).
Proof.
  unfold throttle_profile.
  assert (L5 : lit (F := R) 5%Q = 5) by cell_literals.
  assert (L15 : lit (F := R) 15%Q = 15) by cell_literals.
  destruct (fltb_R_cases t (lit 5%Q)) as [[H E]|[H E]]; rewrite E.
  - left; split; [lra|]. cbn [fadd fsub fmul fdiv lit Arith_R].
    unfold Q2R; cbn [Qnum Qden]. lra.
  - destruct (fltb_R_cases t (lit 15%Q)) as [[H' E']|[H' E']]; rewrite E'.
    + right; left; split; [lra|]. cell_literals.
    + right; right; split; [lra|]. cbn [fadd fsub fmul fdiv lit Arith_R].
      unfold Q2R; cbn [Qnum Qden]. lra.
Qed.

Lemma throttle_profile_bounds (t : R) :
  0 <= t <= 20 -> 0 <= throttle_profile t <= 0.5.
Proof.
  intros Ht.
  destruct (throttle_profile_cases t) as [[H E]|[[H E]|[H E]]]; lra.
Qed.

(** X13: over the 20 s of the ramp cell the throttle stays in [0, 0.5],
    inside the range [0, 1] the model is meant for, and is at least 0.2 up
    to 15 s; it starts at 0.2, the three pieces join at 0.5 at 5 s and at
    15 s, it is 0 at 20 s, and past 20 s the last piece gives a negative
    throttle. *)
Theorem ramp_throttle_range (t : R) :
  (0 <= t <= 20 -> 0 <= throttle_profile t <= 0.5) /\
  (0 <= t <= 15 -> 0.2 <= throttle_profile t) /\
  (20 < t -> throttle_profile t < 0) /\
  throttle_profile 0 = 0.2 /\
  (t < 5 -> 0.5 - throttle_profile t = 0.06 * (5 - t)) /\
  throttle_profile 5 = 0.5 /\ throttle_profile 15 = 0.5 /\
  throttle_profile 20 = 0.
Proof.
  assert (H0 : throttle_profile 0 = 0.2).
  { destruct (throttle_profile_cases 0) as [[H E]|[[H E]|[H E]]]; lra. }
  assert (H5 : throttle_profile 5 = 0.5).
  { destruct (throttle_profile_cases 5) as [[H E]|[[H E]|[H E]]]; lra. }
  assert (H15 : throttle_profile 15 = 0.5).
  { destruct (throttle_profile_cases 15) as [[H E]|[[H E]|[H E]]]; lra. }
  assert (H20 : throttle_profile 20 = 0).
  { destruct (throttle_profile_cases 20) as [[H E]|[[H E]|[H E]]]; lra. }
  destruct (throttle_profile_cases t) as [[H E]|[[H E]|[H E]]];
    repeat split; intros; try assumption; lra.
Qed.

Lemma ramp_trace_inclines (ts : list R) :
  forall mo : Vehicle R,
    Forall (fun al => 0 <= al <= atan (9 / 90))
      (map (fun e => snd (fst e)) (ramp_trace ts mo)).
Proof.
  induction ts as [|t ts IH]; intros mo; cbn [ramp_trace map fst snd].
  - constructor.
  - constructor; [apply angle_value_bounds|apply IH].
Qed.

Lemma ramp_trace_throttles (ts : list R) :
  Forall (fun t => 0 <= t <= 20) ts ->
  forall mo : Vehicle R,
    Forall (fun th => 0 <= th <= 0.5)
      (map (fun e => fst (fst e)) (ramp_trace ts mo)).
Proof.
  induction 1 as [|t ts Ht Hts IH]; intros mo; cbn [ramp_trace map fst snd].
  - constructor.
  - constructor; [apply throttle_profile_bounds; exact Ht|apply IH].
Qed.

(** X14: on any time grid every incline the ramp cell feeds to [step] lies
    between 0 and arctan(9/90); on a time grid inside [0 s, 20 s] every
    throttle it feeds lies in [0, 0.5]. *)
Theorem ramp_cell_inputs_in_range (t_data : list R) (model : Vehicle R) :
  exists w : Ramp.workspace R,
    ramp_cell t_data model = Some w /\
    Forall (fun al => 0 <= al <= atan (9 / 90)) (Ramp.alpha w) /\
    (Forall (fun t => 0 <= t <= 20) t_data ->
     Forall (fun th => 0 <= th <= 0.5) (Ramp.throttle w)).
Proof.
  eexists; split; [apply ramp_cell_eq|]; cbv zeta.
  cbn [Ramp.throttle Ramp.alpha].
  split.
  - apply ramp_trace_inclines.
  - intros Hgrid. apply ramp_trace_throttles. exact Hgrid.
Qed.

(** *** Concrete objects and grids *)

Lemma some_inj (A : Type) (p q : A) : Some p = Some q -> p = q.
Proof. intros H; inversion H; reflexivity. Qed.

Lemma init_positive_velocity : 0 < v (Vehicle_init (F := R)).
Proof. cell_literals. Qed.

Lemma init_wheel_speed :
  GR (Vehicle_init (F := R)) * w_e (Vehicle_init (F := R))
  * r_e (Vehicle_init (F := R)) = 10.5.
Proof. cell_literals. Qed.

(** The object [Vehicle()] builds: wheel surface at 10.5 m/s against 5 m/s,
    outside the window, force at the limit. *)
Lemma linear_regime_window_at_init :
  0 < v (Vehicle_init (F := R)) /\
  2 * v (Vehicle_init (F := R))
    <= GR (Vehicle_init (F := R)) * w_e (Vehicle_init (F := R))
       * r_e (Vehicle_init (F := R)) /\
  F_x (fst (step_forces 0.2 0 (Vehicle_init (F := R))))
    = F_max (Vehicle_init (F := R)).
Proof.
  assert (Hw : 2 * v (Vehicle_init (F := R))
               <= GR (Vehicle_init (F := R)) * w_e (Vehicle_init (F := R))
                  * r_e (Vehicle_init (F := R))).
  { rewrite init_wheel_speed. cell_literals. }
  split; [exact init_positive_velocity|]. split; [exact Hw|].
  destruct (linear_regime_window (Vehicle_init (F := R)) 0.2 0
              init_positive_velocity) as (_ & _ & Hsat).
  apply Hsat. right. exact Hw.
Defined.

Lemma tire_force_bounded_at_init :
  c (Vehicle_init (F := R)) = F_max (Vehicle_init (F := R)) /\
  0 <= F_max (Vehicle_init (F := R)) /\
  Rabs (F_x (fst (step_forces 0.2 0 (Vehicle_init (F := R))))) <= 10000.
Proof.
  assert (Hmax : F_max (Vehicle_init (F := R)) = 10000) by cell_literals.
  assert (Hpos : 0 <= F_max (Vehicle_init (F := R))) by (rewrite Hmax; lra).
  split; [reflexivity|]. split; [exact Hpos|].
  rewrite <- Hmax.
  exact (tire_force_bounded (Vehicle_init (F := R)) 0.2 0 eq_refl Hpos).
Defined.

Lemma init_mass_nonzero : m (Vehicle_init (F := R)) <> 0.
Proof. cell_literals. Qed.

Lemma incline_shifts_acceleration_at_init :
  m (Vehicle_init (F := R)) <> 0 /\
  a (exec (step 0.2 0.1) Vehicle_init) =
  a (exec (step 0.2 0) Vehicle_init) - g (Vehicle_init (F := R)) * sin 0.1.
Proof.
  split; [exact init_mass_nonzero|].
  exact (proj1 (incline_shifts_acceleration (Vehicle_init (F := R)) 0.2 0.1
                  init_mass_nonzero)).
Defined.

Lemma throttle_raises_engine_speed_at_init :
  w_e (exec (step 0.2 0) (Vehicle_init (F := R))) <
  w_e (exec (step 0.5 0) (Vehicle_init (F := R))).
Proof.
  refine (proj2 (@throttle_raises_engine_speed (Vehicle_init (F := R))
                   0.2 0.5 0 _ _ _ _)); cell_literals.
Defined.

Lemma ramp_incline_values_at_100 :
  60 <= 100 < 150 /\ angle_value (F := R) 100 = atan (9 / 90).
Proof.
  assert (H : 60 <= 100 < 150) by lra.
  split; [exact H|].
  destruct (ramp_incline_values 100) as (_ & Hmid & _).
  exact (Hmid H).
Defined.

Lemma ramp_throttle_range_at_10 :
  0 <= 10 <= 20 /\ 0 <= throttle_profile (F := R) 10 <= 0.5.
Proof.
  assert (H : 0 <= 10 <= 20) by lra.
  split; [exact H|].
  destruct (ramp_throttle_range 10) as (Hrange & _).
  exact (Hrange H).
Defined.

Lemma ramp_cell_inputs_in_range_three_points :
  Forall (fun t => 0 <= t <= 20) [0; 0.01; 19.99] /\
  exists w : Ramp.workspace R,
    ramp_cell [0; 0.01; 19.99] Vehicle_init = Some w /\
    Forall (fun al => 0 <= al <= atan (9 / 90)) (Ramp.alpha w) /\
    Forall (fun th => 0 <= th <= 0.5) (Ramp.throttle w).
Proof.
  assert (H : Forall (fun t => 0 <= t <= 20) [0; 0.01; 19.99]).
  { repeat constructor; lra. }
  split; [exact H|].
  destruct (ramp_cell_inputs_in_range [0; 0.01; 19.99] (Vehicle_init (F := R)))
    as (w & Hw & Hal & Hth).
  exists w. split; [exact Hw|]. split; [exact Hal|exact (Hth H)].
Defined.

(** Two grid points: the first incline is the one at the position [reset]
    sets, the second the one at the first recorded position. *)
Lemma ramp_cell_samples_two_points :
  exists (w : Ramp.workspace R) (al0 al1 x0 : R),
    ramp_cell [0; 0.01] Vehicle_init = Some w /\
    nth_error (Ramp.alpha w) 0 = Some al0 /\ al0 = angle_value (lit 0%Q) /\
    nth_error (Ramp.alpha w) 1 = Some al1 /\
    nth_error (Ramp.x_data w) 0 = Some x0 /\ al1 = angle_value x0.
Proof.
  destruct (ramp_cell_samples [0; 0.01] (Vehicle_init (F := R)))
    as (w & Hw & _ & Hal0 & Hlag & _).
  pose proof Hw as Hw'. rewrite ramp_cell_eq in Hw'. cbv zeta in Hw'.
  apply some_inj in Hw'.
  assert (H0 : exists al0, nth_error (Ramp.alpha w) 0 = Some al0).
  { rewrite <- Hw'. eexists. reflexivity. }
  assert (H1 : exists al1, nth_error (Ramp.alpha w) 1 = Some al1).
  { rewrite <- Hw'. eexists. reflexivity. }
  destruct H0 as (al0 & H0). destruct H1 as (al1 & H1).
  destruct (Hlag _ _ H1) as (x0 & Hx0 & Hal1).
  exists w, al0, al1, x0.
  repeat split; try assumption. apply Hal0. exact H0.
Defined.

(** Three grid points: the first sample is the initial velocity, the second
    the velocity after one step. *)
Lemma constant_cell_samples_three_points :
  exists v_data : list R,
    constant_cell [0; 0.01; 0.02]
      = Some (v_data, run (repeat (Step 0.2 0) 3) Vehicle_init) /\
    nth_error v_data 0 = Some 5 /\
    nth_error v_data 1 = Some (v (exec (step 0.2 0) Vehicle_init)).
Proof.
  destruct (constant_cell_samples [0; 0.01; 0.02])
    as (v_data & Hcell & _ & Hnth & Hfirst).
  exists v_data.
  assert (L02 : lit (F := R) 0.2%Q = 0.2) by cell_literals.
  assert (L0 : lit (F := R) 0%Q = 0) by cell_literals.
  assert (L5 : lit (F := R) 5%Q = 5) by cell_literals.
  rewrite L02, L0 in Hcell, Hnth. rewrite L5 in Hfirst.
  split; [exact Hcell|]. split.
  - apply Hfirst. discriminate.
  - apply (Hnth 1%nat). cbn. auto.
Defined.

End ExactDynamics.
